(** * The SQS queue engine of localstack

    A shallow embedding of [localstack/services/sqs/models.py] (messages,
    standard and FIFO queues) and of the message move task manager of
    [localstack/services/sqs/provider.py], together with the properties
    of the engine that the specification states.

    Conventions of the embedding.
    - Python objects that are shared and mutated ([SqsMessage]) live in an
      object store of the queue, [objs]; the containers of the queue hold
      references into that store, so that a mutation through one container
      is seen through every other one.
    - [time.time()] is an oracle [clk : nat -> Z]: the k-th reading made
      during one call is [clk k].  Timestamps are exact numbers of seconds.
    - An operation that can raise returns a [Result] together with the
      state of the queue at the point where it returned or raised.
    - Blocking and the queue mutex are not modelled: every operation runs
      to completion on its own, and a blocking [get] on an empty structure
      times out with [Empty]. *)

From stdpp Require Import base option gmap sets list strings.
From Stdlib Require Import ZArith Lia ZifyNat.

(* stdpp's solvers clear hypotheses that may be gone already *)
#[local] Set Warnings "-clear-no-such-hyp".

#[local] Arguments Nat.div : simpl never.
#[local] Arguments Nat.mul : simpl never.

(** ** Python values *)

(** Truthiness of an optional string ([None] and [""] are falsy) and of an
    optional integer ([None] and [0] are falsy). *)
Definition truthy_str (s : option string) : bool :=
  match s with
  | Some s => negb (String.eqb s "")
  | None => false
  end.

Definition truthy_int (n : option Z) : bool :=
  match n with
  | Some n => negb (n =? 0)%Z
  | None => false
  end.

(** Exceptions.  [exc_code] is [Some c] exactly for the instances of
    [ServiceException], [c] being their [code] attribute. *)
Record Exception := mkException {
  exc_class : string;
  exc_code : option string;
}.

(** Modelled from the spec: the exception classes of
    [localstack/services/sqs/exceptions.py] and [localstack/aws/api/sqs],
    which are not part of the sources at hand; they are service exceptions
    whose code is taken to be the name of the class. *)
Definition InvalidParameterValueException : Exception :=
  mkException "InvalidParameterValueException" (Some "InvalidParameterValueException").
Definition MissingRequiredParameterException : Exception :=
  mkException "MissingRequiredParameterException" (Some "MissingRequiredParameterException").
Definition ReceiptHandleIsInvalid : Exception :=
  mkException "ReceiptHandleIsInvalid" (Some "ReceiptHandleIsInvalid").
Definition QueueDoesNotExist : Exception :=
  mkException "QueueDoesNotExist" (Some "QueueDoesNotExist").

(** Built-in exceptions of Python. *)
Definition NotImplementedError : Exception := mkException "NotImplementedError" None.
Definition KeyError : Exception := mkException "KeyError" None.

Inductive Result (A : Type) : Type :=
| Ok (a : A)
| Raise (e : Exception).
Arguments Ok {A} a.
Arguments Raise {A} e.

(** ** The [heapq] module of the Python standard library

    The array-based binary heap, as implemented by CPython: the list is
    the heap, [lt] is the [__lt__] of the items. *)
Module heapq.
Section algorithms.
Context {A : Type} (lt : A -> A -> bool).

(** [while pos > startpos]: move the parents that are greater than
  [newitem] down; returns the list and the final [pos]. *)
Fixpoint _siftdown_loop (fuel : nat) (heap : list A) (startpos pos : nat)
  (newitem : A) : list A * nat :=
match fuel with
| O => (heap, pos)
| S fuel' =>
    if bool_decide (startpos < pos) then
      let parentpos := (pos - 1) / 2 in
      match heap !! parentpos with
      | Some parent =>
          if lt newitem parent
          then _siftdown_loop fuel' (<[pos := parent]> heap) startpos parentpos newitem
          else (heap, pos)
      | None => (heap, pos)
      end
    else (heap, pos)
end.

Definition _siftdown (heap : list A) (startpos pos : nat) : list A :=
match heap !! pos with
| Some newitem =>
    let '(heap', pos') := _siftdown_loop pos heap startpos pos newitem in
    <[pos' := newitem]> heap'
| None => heap
end.

(** [while childpos < endpos]: bubble the smaller child up until a leaf
  is reached; returns the list and the final [pos]. *)
Fixpoint _siftup_loop (fuel : nat) (heap : list A) (endpos pos : nat) : list A * nat :=
match fuel with
| O => (heap, pos)
| S fuel' =>
    let childpos := 2 * pos + 1 in
    if bool_decide (childpos < endpos) then
      let rightpos := childpos + 1 in
      let childpos :=
        match heap !! childpos, heap !! rightpos with
        | Some l, Some r => if negb (lt l r) then rightpos else childpos
        | _, _ => childpos
        end in
      match heap !! childpos with
      | Some c => _siftup_loop fuel' (<[pos := c]> heap) endpos childpos
      | None => (heap, pos)
      end
    else (heap, pos)
end.

Definition _siftup (heap : list A) (pos : nat) : list A :=
match heap !! pos with
| Some newitem =>
    let '(heap', pos') := _siftup_loop (length heap) heap (length heap) pos in
    _siftdown (<[pos' := newitem]> heap') pos pos'
| None => heap
end.

Definition heappush (heap : list A) (item : A) : list A :=
_siftdown (heap ++ [item]) 0 (length heap).

(** [None] stands for the [IndexError] of popping from an empty list. *)
Definition heappop (heap : list A) : option (A * list A) :=
match last heap with
| None => None
| Some lastelt =>
    match removelast heap with
    | [] => Some (lastelt, [])
    | returnitem :: rest => Some (returnitem, _siftup (lastelt :: rest) 0)
    end
end.

Definition heapify (x : list A) : list A :=
foldl (fun h i => _siftup h i) x (reverse (seq 0 (length x / 2))).
End algorithms.

(** The heap invariant, for items compared by an integer key:
  [heap[k] <= heap[2*k+1]] and [heap[k] <= heap[2*k+2]]. *)
Section invariant.
Context {A : Type} (key : A -> Z).

Definition child (i j : nat) : Prop := j = 2 * i + 1 \/ j = 2 * i + 2.

Definition ordered_at (l : list A) (i j : nat) : Prop :=
forall x y, l !! i = Some x -> l !! j = Some y -> (key x <= key y)%Z.

(** the invariant for the parents at index [s] and above *)
Definition heap_from (s : nat) (l : list A) : Prop :=
forall i j, child i j -> s <= i -> ordered_at l i j.

Definition is_heap (l : list A) : Prop := heap_from 0 l.

(** a test for the invariant: every item but the first is not below its parent *)
Definition is_heapb (l : list A) : bool :=
forallb (fun j =>
           match l !! ((j - 1) / 2), l !! j with
           | Some p, Some c => (key p <=? key c)%Z
           | _, _ => true
           end)
        (seq 1 (length l - 1)).

(** [s] is [p] or an ancestor of [p] in the implicit tree *)
Inductive anc (s : nat) : nat -> Prop :=
| anc_refl : anc s s
| anc_child p j : anc s p -> child p j -> anc s j.

(** The sifting loops move a hole through the list.  [sd_inv s g pos]
  describes the list [g] obtained by storing the travelling item in
  the hole [pos]: every pair is ordered except possibly the pair
  above [pos]. *)
Definition sd_inv (s : nat) (g : list A) (pos : nat) : Prop :=
anc s pos /\
(forall i j, child i j -> s <= i -> j <> pos -> ordered_at g i j) /\
(forall gp j, child gp pos -> child pos j -> s <= gp -> ordered_at g gp j).

(** While the hole travels down, the item left in it is stale:
  [su_inv] says nothing about the pairs that involve [pos]. *)
Definition su_inv (s : nat) (h : list A) (pos : nat) : Prop :=
anc s pos /\
(forall i j, child i j -> s <= i -> i <> pos -> j <> pos -> ordered_at h i j) /\
(forall gp j, child gp pos -> child pos j -> s <= gp -> ordered_at h gp j).
End invariant.
End heapq.

(** ** Messages *)

(** The [Message] dictionary of the API, with the entries of its
    [Attributes] that the engine reads or writes. *)
Record Message := mkMessage {
  MessageId : string;
  Body : string;
  ApproximateReceiveCount : option Z;
  MessageGroupId : option string;
  MessageDeduplicationId : option string;
  SequenceNumber : option Z;
  DeadLetterQueueSourceArn : option string;
}.

(** Modelled from the spec: the receipt-handle codec
    ([encode_receipt_handle] and [extract_receipt_handle_info] of
    [localstack/services/sqs/utils.py]).  A handle encodes the queue arn,
    the message id and the time of the receive; it is kept decoded. *)
Record ReceiptHandle := mkReceiptHandle {
  rh_queue_arn : string;
  rh_message_id : string;
  rh_last_received : option Z;
}.

#[global] Instance ReceiptHandle_eq_dec : EqDecision ReceiptHandle.
Proof. solve_decision. Defined.

#[global] Instance ReceiptHandle_countable : Countable ReceiptHandle.
Proof.
  refine (inj_countable'
            (fun h => (rh_queue_arn h, rh_message_id h, rh_last_received h))
            (fun p => mkReceiptHandle p.1.1 p.1.2 p.2) _).
  by intros [].
Defined.

(** The identity of a Python object. *)
Abbreviation ref := nat.

Module SqsMessage.
Record t := mk {
  message : Message;
  created : Z;
  visibility_timeout : Z;
  receive_count : nat;
  delay_seconds : option Z;
  receipt_handles : gset ReceiptHandle;
  last_received : option Z;
  first_received : option Z;
  visibility_deadline : option Z;
  deleted : bool;
  priority : Z;
  sequence_number : option Z;
}.

(** Assignments to one attribute of the object. *)
Definition with_message (x : Message) (m : t) : t :=
  mk x (created m) (visibility_timeout m) (receive_count m) (delay_seconds m)
     (receipt_handles m) (last_received m) (first_received m)
     (visibility_deadline m) (deleted m) (priority m) (sequence_number m).
Definition with_visibility_timeout (x : Z) (m : t) : t :=
  mk (message m) (created m) x (receive_count m) (delay_seconds m)
     (receipt_handles m) (last_received m) (first_received m)
     (visibility_deadline m) (deleted m) (priority m) (sequence_number m).
Definition with_receive_count (x : nat) (m : t) : t :=
  mk (message m) (created m) (visibility_timeout m) x (delay_seconds m)
     (receipt_handles m) (last_received m) (first_received m)
     (visibility_deadline m) (deleted m) (priority m) (sequence_number m).
Definition with_delay_seconds (x : option Z) (m : t) : t :=
  mk (message m) (created m) (visibility_timeout m) (receive_count m) x
     (receipt_handles m) (last_received m) (first_received m)
     (visibility_deadline m) (deleted m) (priority m) (sequence_number m).
Definition with_receipt_handles (x : gset ReceiptHandle) (m : t) : t :=
  mk (message m) (created m) (visibility_timeout m) (receive_count m) (delay_seconds m)
     x (last_received m) (first_received m)
     (visibility_deadline m) (deleted m) (priority m) (sequence_number m).
Definition with_last_received (x : option Z) (m : t) : t :=
  mk (message m) (created m) (visibility_timeout m) (receive_count m) (delay_seconds m)
     (receipt_handles m) x (first_received m)
     (visibility_deadline m) (deleted m) (priority m) (sequence_number m).
Definition with_first_received (x : option Z) (m : t) : t :=
  mk (message m) (created m) (visibility_timeout m) (receive_count m) (delay_seconds m)
     (receipt_handles m) (last_received m) x
     (visibility_deadline m) (deleted m) (priority m) (sequence_number m).
Definition with_visibility_deadline (x : option Z) (m : t) : t :=
  mk (message m) (created m) (visibility_timeout m) (receive_count m) (delay_seconds m)
     (receipt_handles m) (last_received m) (first_received m)
     x (deleted m) (priority m) (sequence_number m).
Definition with_deleted (x : bool) (m : t) : t :=
  mk (message m) (created m) (visibility_timeout m) (receive_count m) (delay_seconds m)
     (receipt_handles m) (last_received m) (first_received m)
     (visibility_deadline m) x (priority m) (sequence_number m).

(** [SqsMessage(priority, message, ...)]; [now] is the reading of the
    clock taken by the constructor.  The constructor leaves
    [visibility_timeout] unset, every caller assigns it next: it starts
    at 0 here. *)
Definition __init__ (now : Z) (priority : Z) (message : Message)
    (message_deduplication_id message_group_id : option string)
    (sequence_number : option Z) : t :=
  let message :=
    mkMessage (MessageId message) (Body message)
      (match ApproximateReceiveCount message with
       | Some c => Some c
       | None => Some 0%Z
       end)
      (match message_group_id with
       | Some g => Some g
       | None => MessageGroupId message
       end)
      (match message_deduplication_id with
       | Some d => Some d
       | None => MessageDeduplicationId message
       end)
      (match sequence_number with
       | Some n => Some n
       | None => SequenceNumber message
       end)
      (DeadLetterQueueSourceArn message) in
  mk message now 0%Z 0 None ∅ None None None false priority sequence_number.

Definition message_group_id (m : t) : option string := MessageGroupId (message m).
Definition message_deduplication_id (m : t) : option string :=
  MessageDeduplicationId (message m).
Definition dead_letter_queue_source_arn (m : t) : option string :=
  DeadLetterQueueSourceArn (message m).
Definition message_id (m : t) : string := MessageId (message m).

Definition increment_approximate_receive_count (m : t) : t :=
  let cnt := default 0%Z (ApproximateReceiveCount (message m)) in
  let cnt := (cnt + 1)%Z in
  with_message
    (mkMessage (MessageId (message m)) (Body (message m)) (Some cnt)
       (MessageGroupId (message m)) (MessageDeduplicationId (message m))
       (SequenceNumber (message m)) (DeadLetterQueueSourceArn (message m))) m.

Definition set_last_received (timestamp : Z) (m : t) : t :=
  let m := with_last_received (Some timestamp) m in
  with_visibility_deadline (Some (timestamp + visibility_timeout m)%Z) m.

Definition update_visibility_timeout (now : Z) (timeout : Z) (m : t) : t :=
  let m := with_visibility_timeout timeout m in
  with_visibility_deadline (Some (now + timeout)%Z) m.

Definition is_visible (now : Z) (m : t) : bool :=
  match visibility_deadline m with
  | None => true
  | Some deadline => bool_decide (now >= deadline)%Z
  end.

Definition is_delayed (now : Z) (m : t) : bool :=
  match delay_seconds m with
  | None => false
  | Some d => bool_decide (now <= created m + d)%Z
  end.

(** [__lt__] compares the priorities, [__eq__] the message ids. *)
Definition __lt__ (m other : t) : bool := (priority m <? priority other)%Z.
Definition __eq__ (m other : t) : bool := String.eqb (message_id m) (message_id other).

#[global] Instance inhabited : Inhabited t :=
  populate (mk (mkMessage "" "" None None None None None)
               0%Z 0%Z 0 None ∅ None None None false 0%Z None).
End SqsMessage.

(** The outcome of a receive: the lists hold message objects. *)
Record ReceiveMessageResult := mkReceiveMessageResult {
  successful : list ref;
  receipt_handles : list ReceiptHandle;
  dead_letter_messages : list ref;
}.

(** ** Queues: the base class *)

(** A [Set[SqsMessage]]: the messages hash and compare by message id, so
    the set is a map from the message id to the object that was added. *)
Abbreviation pyset := (gmap string ref).

Record RedrivePolicy := mkRedrivePolicy {
  deadLetterTargetArn : string;
  maxReceiveCount : Z;
}.

(** The entries of the attribute map that the engine reads, parsed. *)
Record QueueAttributes := mkQueueAttributes {
  VisibilityTimeout : Z;
  DelaySeconds : Z;
  MessageRetentionPeriod : Z;
  RedrivePolicy_ : option RedrivePolicy;
  ContentBasedDeduplication : bool;
  DeduplicationScope : string;
}.

Module SqsQueue.
Record t := mk {
  arn : string;
  attributes : QueueAttributes;
  objs : gmap ref SqsMessage.t;
  delayed : pyset;
  inflight : pyset;
  receipts : gmap ReceiptHandle ref;
}.

Definition with_attributes (x : QueueAttributes) (q : t) : t :=
  mk (arn q) x (objs q) (delayed q) (inflight q) (receipts q).
Definition with_objs (x : gmap ref SqsMessage.t) (q : t) : t :=
  mk (arn q) (attributes q) x (delayed q) (inflight q) (receipts q).
Definition with_delayed (x : pyset) (q : t) : t :=
  mk (arn q) (attributes q) (objs q) x (inflight q) (receipts q).
Definition with_inflight (x : pyset) (q : t) : t :=
  mk (arn q) (attributes q) (objs q) (delayed q) x (receipts q).
Definition with_receipts (x : gmap ReceiptHandle ref) (q : t) : t :=
  mk (arn q) (attributes q) (objs q) (delayed q) (inflight q) x.

(** [__init__]: a queue without messages *)
Definition __init__ (arn : string) (attributes : QueueAttributes) : t :=
  mk arn attributes ∅ ∅ ∅ ∅.

(** *** The object store *)

(** the object behind a reference *)
Definition obj (q : t) (r : ref) : SqsMessage.t := objs q !!! r.

(** mutation of the object behind a reference *)
Definition update_obj (r : ref) (f : SqsMessage.t -> SqsMessage.t) (q : t) : t :=
  with_objs (<[r := f (obj q r)]> (objs q)) q.

(** allocation of a new object *)
Definition new_obj (m : SqsMessage.t) (q : t) : ref * t :=
  let r := fresh (dom (objs q)) in
  (r, with_objs (<[r := m]> (objs q)) q).

(** *** Sets of messages *)

Definition set_contains (q : t) (s : pyset) (r : ref) : bool :=
  bool_decide (is_Some (s !! SqsMessage.message_id (obj q r))).

Definition set_add (q : t) (s : pyset) (r : ref) : pyset :=
  let k := SqsMessage.message_id (obj q r) in
  match s !! k with
  | Some _ => s
  | None => <[k := r]> s
  end.

(** [None] stands for [KeyError] *)
Definition set_remove (q : t) (s : pyset) (r : ref) : option pyset :=
  let k := SqsMessage.message_id (obj q r) in
  match s !! k with
  | Some _ => Some (delete k s)
  | None => None
  end.

(** the objects of the set, in the order of iteration *)
Definition set_elements (s : pyset) : list ref := (map_to_list s).*2.

(** *** Properties *)

Definition max_receive_count (q : t) : option Z :=
  match RedrivePolicy_ (attributes q) with
  | Some redrive_policy => Some (maxReceiveCount redrive_policy)
  | None => None
  end.

Definition visibility_timeout (q : t) : Z := VisibilityTimeout (attributes q).
Definition delay_seconds (q : t) : Z := DelaySeconds (attributes q).
Definition message_retention_period (q : t) : Z := MessageRetentionPeriod (attributes q).

Definition approx_number_of_messages_not_visible (q : t) : nat := size (inflight q).
Definition approx_number_of_messages_delayed (q : t) : nat := size (delayed q).

Definition validate_receipt_handle (q : t) (receipt_handle : ReceiptHandle) : Result unit :=
  if negb (String.eqb (arn q) (rh_queue_arn receipt_handle))
  then Raise ReceiptHandleIsInvalid
  else Ok tt.

Definition create_receipt_handle (q : t) (message : ref) : ReceiptHandle :=
  mkReceiptHandle (arn q) (SqsMessage.message_id (obj q message))
                  (SqsMessage.last_received (obj q message)).

Definition clear (q : t) : t :=
  with_receipts ∅ (with_delayed ∅ (with_inflight ∅ q)).

(** [for handle in handles: del self.receipts[handle]] *)
Fixpoint del_receipts (handles : list ReceiptHandle) (q : t) : Result unit * t :=
  match handles with
  | [] => (Ok tt, q)
  | handle :: handles =>
      match receipts q !! handle with
      | Some _ => del_receipts handles (with_receipts (delete handle (receipts q)) q)
      | None => (Raise KeyError, q)
      end
  end.

(** [a < b] on message objects *)
Definition lt (q : t) (a b : ref) : bool := SqsMessage.__lt__ (obj q a) (obj q b).

(** [remove_expired_messages_from_heap(heap, message_retention_period)]:
    returns the expired messages and the heap that is left.  The loop
    pops one message per round, the length of the heap bounds it. *)
Fixpoint remove_expired_loop (fuel : nat) (q : t) (th : Z)
    (heap expired : list ref) : list ref * list ref :=
  match heap with
  | [] => (expired, heap)
  | message :: _ =>
      if (th <? SqsMessage.created (obj q message))%Z then (expired, heap)
      else
        match fuel, heapq.heappop (lt q) heap with
        | S fuel', Some (_, heap') =>
            remove_expired_loop fuel' q th heap' (expired ++ [message])
        | _, _ => (expired, heap)
        end
  end.

Definition remove_expired_messages_from_heap (now : Z) (q : t)
    (heap : list ref) (message_retention_period : Z) : list ref * list ref :=
  let th := (now - message_retention_period)%Z in
  remove_expired_loop (length heap) q th heap [].

(** *** Blocks shared by the [receive] methods of both queue types *)

(** "update message attributes"; [now1] and [now2] are the readings of
    the clock in [update_visibility_timeout] and for [set_last_received] *)
Definition update_message_attributes (now1 now2 : Z) (visibility_timeout : Z)
    (m : SqsMessage.t) : SqsMessage.t :=
  let m := SqsMessage.with_receive_count (SqsMessage.receive_count m + 1) m in
  let m := SqsMessage.update_visibility_timeout now1 visibility_timeout m in
  let m := SqsMessage.set_last_received now2 m in
  match SqsMessage.first_received m with
  | None => SqsMessage.with_first_received (SqsMessage.last_received m) m
  | Some _ => m
  end.

(** [max_receive_count and message.receive_count > max_receive_count] *)
Definition exceeds_max_receive_count (max_receive_count : option Z)
    (m : SqsMessage.t) : bool :=
  match max_receive_count with
  | Some n => negb (n =? 0)%Z && (Z.of_nat (SqsMessage.receive_count m) >? n)%Z
  | None => false
  end.

(** "manage receipt handle": mint a handle for the message and register it *)
Definition register_receipt_handle (message : ref) (q : t) : ReceiptHandle * t :=
  let receipt_handle := create_receipt_handle q message in
  let q :=
    update_obj message
      (fun m => SqsMessage.with_receipt_handles
                  ({[receipt_handle]} ∪ SqsMessage.receipt_handles m) m) q in
  (receipt_handle, with_receipts (<[receipt_handle := message]> (receipts q)) q).

(** *** The queue types

    What the subclasses provide to the methods of the base class. *)
Class Kind (Q : Type) := {
  base : Q -> t;
  with_base : t -> Q -> Q;
  _pre_delete_checks : Q -> ref -> ReceiptHandle -> Z -> Result unit;
  _on_remove_message : ref -> Q -> Q;
  _put_message : ref -> Q -> Q;
}.

Section methods.
Context {Q : Type} `{Kind Q}.

Definition on_base (f : t -> t) (q : Q) : Q := with_base (f (base q)) q.

(** [now] is the reading of the clock in [_pre_delete_checks] *)
Definition remove (now : Z) (receipt_handle : ReceiptHandle) (q : Q) : Result unit * Q :=
  match validate_receipt_handle (base q) receipt_handle with
  | Raise e => (Raise e, q)
  | Ok _ =>
      match receipts (base q) !! receipt_handle with
      | None => (Ok tt, q)
      | Some standard_message =>
          match _pre_delete_checks q standard_message receipt_handle now with
          | Raise e => (Raise e, q)
          | Ok _ =>
              let q := on_base (update_obj standard_message (SqsMessage.with_deleted true)) q in
              let handles :=
                elements (SqsMessage.receipt_handles (obj (base q) standard_message)) in
              match del_receipts handles (base q) with
              | (Raise e, b) => (Raise e, with_base b q)
              | (Ok _, b) =>
                  let q := with_base b q in
                  let q :=
                    on_base (update_obj standard_message (SqsMessage.with_receipt_handles ∅)) q in
                  (Ok tt, _on_remove_message standard_message q)
              end
          end
      end
  end.

Definition update_visibility_timeout (now : Z) (receipt_handle : ReceiptHandle)
    (visibility_timeout : Z) (q : Q) : Result unit * Q :=
  match validate_receipt_handle (base q) receipt_handle with
  | Raise e => (Raise e, q)
  | Ok _ =>
      match receipts (base q) !! receipt_handle with
      | None => (Raise InvalidParameterValueException, q)
      | Some standard_message =>
          if negb (set_contains (base q) (inflight (base q)) standard_message)
          then (Ok tt, q)
          else
            let q :=
              on_base (update_obj standard_message
                         (SqsMessage.update_visibility_timeout now visibility_timeout)) q in
            if (visibility_timeout =? 0)%Z then
              match set_remove (base q) (inflight (base q)) standard_message with
              | Some s => (Ok tt, _put_message standard_message (on_base (with_inflight s) q))
              | None => (Raise KeyError, q)
              end
            else (Ok tt, q)
      end
  end.

(** [for standard_message in messages: s.remove(standard_message);
    self._put_message(standard_message)], for the set [s] of the base
    read by [get] and written by [set] *)
Fixpoint move_to_visible (get : t -> pyset) (set : pyset -> t -> t)
    (messages : list ref) (q : Q) : Result unit * Q :=
  match messages with
  | [] => (Ok tt, q)
  | standard_message :: messages =>
      match set_remove (base q) (get (base q)) standard_message with
      | Some s =>
          move_to_visible get set messages
            (_put_message standard_message (on_base (set s) q))
      | None => (Raise KeyError, q)
      end
  end.

(** [now] is the time read by [is_visible] *)
Definition requeue_inflight_messages (now : Z) (q : Q) : Result unit * Q :=
  let messages :=
    filter (fun r => SqsMessage.is_visible now (obj (base q) r) = true)
           (set_elements (inflight (base q))) in
  move_to_visible inflight with_inflight messages q.

(** [now] is the time read by [is_delayed] *)
Definition enqueue_delayed_messages (now : Z) (q : Q) : Result unit * Q :=
  let messages :=
    filter (fun r => SqsMessage.is_delayed now (obj (base q) r) = false)
           (set_elements (delayed (base q))) in
  move_to_visible delayed with_delayed messages q.
End methods.
End SqsQueue.

(** ** Standard queues *)

Definition empty_result : ReceiveMessageResult := mkReceiveMessageResult [] [] [].

(** [list.remove(x)]: drops the first item that equals [x];
    [None] stands for [ValueError]. *)
Fixpoint list_remove {A : Type} (eqb : A -> bool) (l : list A) : option (list A) :=
  match l with
  | [] => None
  | y :: l' => if eqb y then Some l' else (fun l'' => y :: l'') <$> list_remove eqb l'
  end.

Module StandardQueue.
(** Modelled from the spec: [visible] is an [InterruptiblePriorityQueue]
    ([localstack/services/sqs/queue.py] is not part of the sources at
    hand), a priority structure ordered by ascending priority.  As in the
    [PriorityQueue] of Python, its [queue] attribute is a list kept as a
    heap by [heapq]: [put_nowait] is [heappush], [get] is [heappop] and
    raises [Empty] when there is nothing to pop. *)
Record t := mk {
  base : SqsQueue.t;
  visible : list ref;
}.

Definition with_base (x : SqsQueue.t) (q : t) : t := mk x (visible q).
Definition with_visible (x : list ref) (q : t) : t := mk (base q) x.
Definition on_base (f : SqsQueue.t -> SqsQueue.t) (q : t) : t := with_base (f (base q)) q.

Definition __init__ (arn : string) (attributes : QueueAttributes) : t :=
  mk (SqsQueue.__init__ arn attributes) [].

Definition clear (q : t) : t := with_visible [] (on_base SqsQueue.clear q).

Definition approx_number_of_messages (q : t) : nat := length (visible q).

Definition put_nowait (message : ref) (q : t) : t :=
  with_visible (heapq.heappush (SqsQueue.lt (base q)) (visible q) message) q.

Definition _put_message (message : ref) (q : t) : t := put_nowait message q.

(** [clk 0] is the priority of the message, [clk 1] is read by the
    constructor and [clk 2] by [is_delayed] *)
Definition put (clk : nat -> Z) (message : Message) (visibility_timeout : option Z)
    (message_deduplication_id message_group_id : option string)
    (delay_seconds : option Z) (q : t) : Result SqsMessage.t * t :=
  if truthy_str message_deduplication_id then (Raise InvalidParameterValueException, q)
  else
    let standard_message := SqsMessage.__init__ (clk 1) (clk 0) message None None None in
    let standard_message :=
      SqsMessage.with_visibility_timeout
        (match visibility_timeout with
         | Some v => v
         | None => SqsQueue.visibility_timeout (base q)
         end) standard_message in
    let standard_message :=
      SqsMessage.with_delay_seconds
        (match delay_seconds with
         | Some d => Some d
         | None => Some (SqsQueue.delay_seconds (base q))
         end) standard_message in
    let '(r, b) := SqsQueue.new_obj standard_message (base q) in
    let q := with_base b q in
    if SqsMessage.is_delayed (clk 2) standard_message
    then (Ok standard_message,
          on_base (SqsQueue.with_delayed (SqsQueue.set_add (base q) (SqsQueue.delayed (base q)) r)) q)
    else (Ok standard_message, _put_message r q).

Definition remove_expired_messages (now : Z) (q : t) : t :=
  let '(messages, heap) :=
    SqsQueue.remove_expired_messages_from_heap now (base q) (visible q)
      (SqsQueue.message_retention_period (base q)) in
  with_visible heap q.

(** "collect messages": [k] counts the readings of the clock made so
    far.  Every round pops one message, the size of [visible] bounds
    the number of rounds. *)
Fixpoint receive_collect (fuel : nat) (clk : nat -> Z) (k : nat) (num_messages : Z)
    (max_receive_count : option Z) (visibility_timeout : Z)
    (q : t) (result : ReceiveMessageResult) : t * ReceiveMessageResult :=
  match fuel, heapq.heappop (SqsQueue.lt (base q)) (visible q) with
  | S fuel', Some (message, heap) =>
      let q := with_visible heap q in
      if SqsMessage.deleted (SqsQueue.obj (base q) message) then
        receive_collect fuel' clk (k + 1) num_messages max_receive_count
          visibility_timeout q result
      else
        let q :=
          on_base (SqsQueue.update_obj message
                     (SqsQueue.update_message_attributes (clk (k + 1)) (clk (k + 2))
                        visibility_timeout)) q in
        if SqsQueue.exceeds_max_receive_count max_receive_count
             (SqsQueue.obj (base q) message)
        then
          receive_collect fuel' clk (k + 3) num_messages max_receive_count
            visibility_timeout q
            (mkReceiveMessageResult (successful result) (receipt_handles result)
               (dead_letter_messages result ++ [message]))
        else
          let result :=
            mkReceiveMessageResult (successful result ++ [message])
              (receipt_handles result) (dead_letter_messages result) in
          let q :=
            on_base (SqsQueue.update_obj message
                       SqsMessage.increment_approximate_receive_count) q in
          if (Z.of_nat (length (successful result)) =? num_messages)%Z
          then (q, result)
          else
            receive_collect fuel' clk (k + 3) num_messages max_receive_count
              visibility_timeout q result
  | _, _ => (q, result)
  end.

(** "process the successful result messages: create receipt handles and
    manage visibility" *)
Fixpoint receive_process (messages : list ref) (q : t)
    (handles : list ReceiptHandle) : t * list ReceiptHandle :=
  match messages with
  | [] => (q, handles)
  | message :: messages =>
      let '(receipt_handle, b) := SqsQueue.register_receipt_handle message (base q) in
      let q := with_base b q in
      let handles := handles ++ [receipt_handle] in
      let q :=
        if (SqsMessage.visibility_timeout (SqsQueue.obj (base q) message) =? 0)%Z
        then put_nowait message q
        else on_base (SqsQueue.with_inflight
                        (SqsQueue.set_add (base q) (SqsQueue.inflight (base q)) message)) q in
      receive_process messages q handles
  end.

(** [clk 0] is [start]; waiting is not modelled, so [wait_time_seconds]
    and [poll_empty_queue] have no effect on the outcome *)
Definition receive (clk : nat -> Z) (num_messages : Z) (visibility_timeout : option Z)
    (q : t) : ReceiveMessageResult * t :=
  let max_receive_count := SqsQueue.max_receive_count (base q) in
  let visibility_timeout :=
    match visibility_timeout with
    | None => SqsQueue.visibility_timeout (base q)
    | Some v => v
    end in
  let '(q, result) :=
    receive_collect (length (visible q)) clk 1 num_messages max_receive_count
      visibility_timeout q empty_result in
  let '(q, handles) := receive_process (successful result) q (receipt_handles result) in
  (mkReceiveMessageResult (successful result) handles (dead_letter_messages result), q).

Definition _on_remove_message (message : ref) (q : t) : t :=
  match SqsQueue.set_remove (base q) (SqsQueue.inflight (base q)) message with
  | Some s => on_base (SqsQueue.with_inflight s) q
  | None =>
      match list_remove (fun r => SqsMessage.__eq__ (SqsQueue.obj (base q) r)
                                    (SqsQueue.obj (base q) message)) (visible q) with
      | Some l => with_visible (heapq.heapify (SqsQueue.lt (base q)) l) q
      | None => q
      end
  end.

(** the standard queue keeps the [_pre_delete_checks] of the base class,
    which does nothing *)
#[global] Instance kind : SqsQueue.Kind t := {|
  SqsQueue.base := base;
  SqsQueue.with_base := with_base;
  SqsQueue._pre_delete_checks := fun _ _ _ _ => Ok tt;
  SqsQueue._on_remove_message := _on_remove_message;
  SqsQueue._put_message := _put_message;
|}.

Definition remove (receipt_handle : ReceiptHandle) (q : t) : Result unit * t :=
  SqsQueue.remove 0%Z receipt_handle q.
End StandardQueue.

(** ** FIFO queues *)

(** The id of a message group; message groups hash and compare by id. *)
Abbreviation GroupId := (option string).

(** Modelled from the spec: the constant
    [sqs_constants.DEDUPLICATION_INTERVAL_IN_SEC], five minutes. *)
Definition DEDUPLICATION_INTERVAL_IN_SEC : Z := 5 * 60.

Module FifoQueue.
(** A [MessageGroup] object is its id and the heap of its messages.
    The objects are created once per id by [get_message_group] and are
    shared by [message_groups], [inflight_groups] and
    [message_group_queue]: the heaps are kept in [message_groups], the
    other two structures hold ids.

    Modelled from the spec: [message_group_queue] is an
    [InterruptibleQueue] ([localstack/services/sqs/queue.py] is not
    part of the sources at hand), a first-in first-out queue of the
    groups that are ready: [put_nowait] appends, [get] takes the first
    group and raises [Empty] when there is none. *)
Record t := mk {
  base : SqsQueue.t;
  deduplication : gmap string ref;
  message_groups : gmap GroupId (list ref);
  inflight_groups : gset GroupId;
  message_group_queue : list GroupId;
  deduplication_scope : string;
}.

Definition with_base (x : SqsQueue.t) (q : t) : t :=
  mk x (deduplication q) (message_groups q) (inflight_groups q)
     (message_group_queue q) (deduplication_scope q).
Definition with_deduplication (x : gmap string ref) (q : t) : t :=
  mk (base q) x (message_groups q) (inflight_groups q)
     (message_group_queue q) (deduplication_scope q).
Definition with_message_groups (x : gmap GroupId (list ref)) (q : t) : t :=
  mk (base q) (deduplication q) x (inflight_groups q)
     (message_group_queue q) (deduplication_scope q).
Definition with_inflight_groups (x : gset GroupId) (q : t) : t :=
  mk (base q) (deduplication q) (message_groups q) x
     (message_group_queue q) (deduplication_scope q).
Definition with_message_group_queue (x : list GroupId) (q : t) : t :=
  mk (base q) (deduplication q) (message_groups q) (inflight_groups q)
     x (deduplication_scope q).
Definition on_base (f : SqsQueue.t -> SqsQueue.t) (q : t) : t := with_base (f (base q)) q.

Definition __init__ (arn : string) (attributes : QueueAttributes) : t :=
  mk (SqsQueue.__init__ arn attributes) ∅ ∅ ∅ [] (DeduplicationScope attributes).

(** the heap of a group, [messages] *)
Definition messages (q : t) (message_group : GroupId) : list ref :=
  default [] (message_groups q !! message_group).

Definition approx_number_of_messages (q : t) : nat :=
  map_fold (fun _ heap n => n + length heap) 0 (message_groups q).

(** the lazy factory of the groups: creates the group when it is new *)
Definition get_message_group (message_group_id : GroupId) (q : t) : t :=
  match message_groups q !! message_group_id with
  | Some _ => q
  | None => with_message_groups (<[message_group_id := []]> (message_groups q)) q
  end.

Definition update_delay_seconds (value : Z) (q : t) : t :=
  let a := SqsQueue.attributes (base q) in
  let q :=
    on_base (SqsQueue.with_attributes
               (mkQueueAttributes (VisibilityTimeout a) value (MessageRetentionPeriod a)
                  (RedrivePolicy_ a) (ContentBasedDeduplication a) (DeduplicationScope a))) q in
  foldl (fun q message =>
           on_base (SqsQueue.update_obj message (SqsMessage.with_delay_seconds (Some value))) q)
        q (SqsQueue.set_elements (SqsQueue.delayed (base q))).

(** [float(last_received)] of a handle without a time is a [ValueError] *)
Definition _pre_delete_checks (q : t) (message : ref) (receipt_handle : ReceiptHandle)
    (now : Z) : Result unit :=
  match rh_last_received receipt_handle with
  | None => Raise (mkException "ValueError" None)
  | Some last_received =>
      if (now - last_received >? SqsMessage.visibility_timeout (SqsQueue.obj (base q) message))%Z
      then Raise InvalidParameterValueException
      else Ok tt
  end.

(** [MessageGroup.push] and the bookkeeping of the ready groups *)
Definition _put_message (message : ref) (q : t) : t :=
  let message_group := SqsMessage.message_group_id (SqsQueue.obj (base q) message) in
  let q := get_message_group message_group q in
  let previously_empty := bool_decide (messages q message_group = []) in
  let q :=
    with_message_groups
      (<[message_group :=
           heapq.heappush (SqsQueue.lt (base q)) (messages q message_group) message]>
         (message_groups q)) q in
  if bool_decide (SqsMessage.receive_count (SqsQueue.obj (base q) message) < 1)
     && bool_decide (message_group ∈ inflight_groups q)
  then q
  else if bool_decide (message_group ∈ inflight_groups q) then
    let q := with_inflight_groups (inflight_groups q ∖ {[message_group]}) q in
    with_message_group_queue (message_group_queue q ++ [message_group]) q
  else if previously_empty then
    with_message_group_queue (message_group_queue q ++ [message_group]) q
  else q.

Definition update_message_group_visibility (message_group : GroupId) (q : t) : t :=
  if bool_decide (message_group ∈ inflight_groups q) then
    if existsb (fun message =>
                  bool_decide (SqsMessage.message_group_id (SqsQueue.obj (base q) message)
                               = message_group))
               (SqsQueue.set_elements (SqsQueue.inflight (base q)))
    then q
    else
      let q := with_inflight_groups (inflight_groups q ∖ {[message_group]}) q in
      if bool_decide (messages q message_group = []) then q
      else with_message_group_queue (message_group_queue q ++ [message_group]) q
  else q.

Definition _on_remove_message (message : ref) (q : t) : t :=
  let message_group := SqsMessage.message_group_id (SqsQueue.obj (base q) message) in
  let q := get_message_group message_group q in
  let q :=
    match SqsQueue.set_remove (base q) (SqsQueue.inflight (base q)) message with
    | Some s => on_base (SqsQueue.with_inflight s) q
    | None => q
    end in
  update_message_group_visibility message_group q.

#[global] Instance kind : SqsQueue.Kind t := {|
  SqsQueue.base := base;
  SqsQueue.with_base := with_base;
  SqsQueue._pre_delete_checks := _pre_delete_checks;
  SqsQueue._on_remove_message := _on_remove_message;
  SqsQueue._put_message := _put_message;
|}.

(** [now] is the time read by [_pre_delete_checks] *)
Definition remove (now : Z) (receipt_handle : ReceiptHandle) (q : t) : Result unit * t :=
  match SqsQueue.validate_receipt_handle (base q) receipt_handle with
  | Raise e => (Raise e, q)
  | Ok _ => SqsQueue.remove now receipt_handle q
  end.

(** Modelled from the spec: [is_message_deduplication_id_required] of
    [localstack/services/sqs/utils.py]; an explicit deduplication id is
    required unless content-based deduplication is enabled. *)
Definition is_message_deduplication_id_required (q : t) : bool :=
  negb (ContentBasedDeduplication (SqsQueue.attributes (base q))).

Definition clear (q : t) : t :=
  let q := on_base SqsQueue.clear q in
  let q := with_message_groups ∅ q in
  let q := with_inflight_groups ∅ q in
  let q := with_message_group_queue [] q in
  with_deduplication ∅ q.

Definition remove_expired_messages (now : Z) (q : t) : t :=
  let retention_period := SqsQueue.message_retention_period (base q) in
  with_message_groups
    ((fun heap =>
        (SqsQueue.remove_expired_messages_from_heap now (base q) heap retention_period).2)
       <$> message_groups q) q.

(** "collect messages from the group until a continue/break condition
    is met": [k] counts the readings of the clock made so far and is
    returned.  Every round pops one message of the group. *)
Fixpoint receive_group (fuel : nat) (clk : nat -> Z) (k : nat) (num_messages : Z)
    (max_receive_count : option Z) (visibility_timeout : Z) (group : GroupId)
    (q : t) (result : ReceiveMessageResult) : t * ReceiveMessageResult * nat :=
  match fuel, heapq.heappop (SqsQueue.lt (base q)) (messages q group) with
  | S fuel', Some (message, heap) =>
      let q := with_message_groups (<[group := heap]> (message_groups q)) q in
      if SqsMessage.deleted (SqsQueue.obj (base q) message) then
        receive_group fuel' clk k num_messages max_receive_count visibility_timeout
          group q result
      else
        let q :=
          on_base (SqsQueue.update_obj message
                     (SqsQueue.update_message_attributes (clk k) (clk (k + 1))
                        visibility_timeout)) q in
        if SqsQueue.exceeds_max_receive_count max_receive_count
             (SqsQueue.obj (base q) message)
        then
          receive_group fuel' clk (k + 2) num_messages max_receive_count
            visibility_timeout group q
            (mkReceiveMessageResult (successful result) (receipt_handles result)
               (dead_letter_messages result ++ [message]))
        else
          let result :=
            mkReceiveMessageResult (successful result ++ [message])
              (receipt_handles result) (dead_letter_messages result) in
          let q :=
            on_base (SqsQueue.update_obj message
                       SqsMessage.increment_approximate_receive_count) q in
          if (Z.of_nat (length (successful result)) =? num_messages)%Z
          then (q, result, k + 2)
          else
            receive_group fuel' clk (k + 2) num_messages max_receive_count
              visibility_timeout group q result
  | _, _ => (q, result, k)
  end.

(** "collect messages over potentially multiple groups": every round
    takes one group from [message_group_queue]. *)
Fixpoint receive_collect (fuel : nat) (clk : nat -> Z) (k : nat) (num_messages : Z)
    (max_receive_count : option Z) (visibility_timeout : Z)
    (q : t) (result : ReceiveMessageResult) : t * ReceiveMessageResult :=
  match fuel, message_group_queue q with
  | S fuel', group :: rest =>
      let q := with_message_group_queue rest q in
      if bool_decide (messages q group = []) then
        receive_collect fuel' clk (k + 1) num_messages max_receive_count
          visibility_timeout q result
      else
        let q := with_inflight_groups ({[group]} ∪ inflight_groups q) q in
        let '(q, result, k) :=
          receive_group (length (messages q group)) clk k num_messages
            max_receive_count visibility_timeout group q result in
        if (Z.of_nat (length (successful result)) =? num_messages)%Z
        then (q, result)
        else
          receive_collect fuel' clk k num_messages max_receive_count
            visibility_timeout q result
  | _, _ => (q, result)
  end.

(** "process the successful result messages: create receipt handles and
    manage visibility" *)
Fixpoint receive_process (messages : list ref) (q : t)
    (handles : list ReceiptHandle) : t * list ReceiptHandle :=
  match messages with
  | [] => (q, handles)
  | message :: messages =>
      let '(receipt_handle, b) := SqsQueue.register_receipt_handle message (base q) in
      let q := with_base b q in
      let handles := handles ++ [receipt_handle] in
      let q :=
        if (SqsMessage.visibility_timeout (SqsQueue.obj (base q) message) =? 0)%Z
        then _put_message message q
        else on_base (SqsQueue.with_inflight
                        (SqsQueue.set_add (base q) (SqsQueue.inflight (base q)) message)) q in
      receive_process messages q handles
  end.

(** [clk 0] is [start]; waiting is not modelled, so [wait_time_seconds]
    and [poll_empty_queue] have no effect on the outcome *)
Definition receive (clk : nat -> Z) (num_messages : Z) (visibility_timeout : option Z)
    (q : t) : ReceiveMessageResult * t :=
  let max_receive_count := SqsQueue.max_receive_count (base q) in
  let visibility_timeout :=
    match visibility_timeout with
    | None => SqsQueue.visibility_timeout (base q)
    | Some v => v
    end in
  let '(q, result) :=
    receive_collect (length (message_group_queue q)) clk 1 num_messages
      max_receive_count visibility_timeout q empty_result in
  let '(q, handles) := receive_process (successful result) q (receipt_handles result) in
  (mkReceiveMessageResult (successful result) handles (dead_letter_messages result), q).

Section put.
(** [hashlib.sha256(body.encode("utf-8")).hexdigest()] *)
Variable sha256_hexdigest : string -> string.

(** [clk 0] is the priority of the message, [clk 1] is read by the
    constructor and [clk 2] by [is_delayed]; [sequence_number] is the
    number drawn from the global sequence *)
Definition put (clk : nat -> Z) (sequence_number : Z) (message : Message)
    (visibility_timeout : option Z)
    (message_deduplication_id message_group_id : option string)
    (delay_seconds : option Z) (q : t) : Result SqsMessage.t * t :=
  if truthy_int delay_seconds then (Raise InvalidParameterValueException, q)
  else if negb (truthy_str message_group_id)
  then (Raise MissingRequiredParameterException, q)
  else
    let dedup_id := message_deduplication_id in
    let content_based_deduplication := negb (is_message_deduplication_id_required q) in
    let dedup_id :=
      if negb (truthy_str dedup_id) && content_based_deduplication
      then Some (sha256_hexdigest (Body message))
      else dedup_id in
    match dedup_id with
    | None => (Raise InvalidParameterValueException, q)
    | Some dedup_id =>
        if String.eqb dedup_id "" then (Raise InvalidParameterValueException, q)
        else
          let fifo_message :=
            SqsMessage.__init__ (clk 1) (clk 0) message (Some dedup_id)
              message_group_id (Some sequence_number) in
          let fifo_message :=
            SqsMessage.with_visibility_timeout
              (match visibility_timeout with
               | Some v => v
               | None => SqsQueue.visibility_timeout (base q)
               end) fifo_message in
          let fifo_message :=
            SqsMessage.with_delay_seconds (Some (SqsQueue.delay_seconds (base q)))
              fifo_message in
          (* the branch "enqueue as new" *)
          let enqueued :=
            let '(r, b) := SqsQueue.new_obj fifo_message (base q) in
            let q := with_base b q in
            let q :=
              if SqsMessage.is_delayed (clk 2) fifo_message
              then on_base (SqsQueue.with_delayed
                              (SqsQueue.set_add (base q) (SqsQueue.delayed (base q)) r)) q
              else _put_message r q in
            (Ok fifo_message, with_deduplication (<[dedup_id := r]> (deduplication q)) q) in
          match deduplication q !! dedup_id with
          | Some original_message =>
              let original_message := SqsQueue.obj (base q) original_message in
              if (SqsMessage.priority original_message + DEDUPLICATION_INTERVAL_IN_SEC
                    >? SqsMessage.priority fifo_message)%Z
                 && (negb (String.eqb (deduplication_scope q) "messageGroup")
                     || bool_decide (SqsMessage.message_group_id fifo_message
                                     = SqsMessage.message_group_id original_message))
              then
                (* message["MessageId"] = original_message.message["MessageId"] *)
                let m := SqsMessage.message fifo_message in
                (Ok (SqsMessage.with_message
                       (mkMessage (SqsMessage.message_id original_message) (Body m)
                          (ApproximateReceiveCount m) (MessageGroupId m)
                          (MessageDeduplicationId m) (SequenceNumber m)
                          (DeadLetterQueueSourceArn m)) fifo_message), q)
              else enqueued
          | None => enqueued
          end
    end.
End put.
End FifoQueue.

(** ** Message move tasks *)

Inductive MessageMoveTaskStatus : Type :=
| CREATED
| RUNNING
| COMPLETED
| CANCELLING
| CANCELLED
| FAILED.

Module MessageMoveTask.
(** [cancel_event] is the flag of the [threading.Event] *)
Record t := mk {
  source_arn : string;
  destination_arn : option string;
  max_number_of_messages_per_second : option Z;
  task_id : string;
  status : MessageMoveTaskStatus;
  approximate_number_of_messages_moved : Z;
  approximate_number_of_messages_to_move : nat;
  failure_reason : option string;
  cancel_event : bool;
}.

Definition with_status (x : MessageMoveTaskStatus) (task : t) : t :=
  mk (source_arn task) (destination_arn task) (max_number_of_messages_per_second task)
     (task_id task) x (approximate_number_of_messages_moved task)
     (approximate_number_of_messages_to_move task) (failure_reason task)
     (cancel_event task).
Definition with_failure_reason (x : option string) (task : t) : t :=
  mk (source_arn task) (destination_arn task) (max_number_of_messages_per_second task)
     (task_id task) (status task) (approximate_number_of_messages_moved task)
     (approximate_number_of_messages_to_move task) x (cancel_event task).
Definition with_approximate_number_of_messages_moved (x : Z) (task : t) : t :=
  mk (source_arn task) (destination_arn task) (max_number_of_messages_per_second task)
     (task_id task) (status task) x
     (approximate_number_of_messages_to_move task) (failure_reason task)
     (cancel_event task).
End MessageMoveTask.

(** A queue of the store: the methods of [SqsQueue] dispatch on its class. *)
Inductive Queue : Type :=
| Standard (q : StandardQueue.t)
| Fifo (q : FifoQueue.t).

(** How the worker loop of a move task ended. *)
Inductive LoopExit : Type :=
| Finished
| Raised (e : Exception)
| OutOfFuel.

Module MessageMoveTaskManager.
(** The queues of all stores, by arn. *)
Abbreviation Queues := (gmap string Queue).

Section manager.
(** [hashlib.sha256(body.encode("utf-8")).hexdigest()] *)
Variable sha256_hexdigest : string -> string.

Definition queue_base (queue : Queue) : SqsQueue.t :=
  match queue with
  | Standard q => StandardQueue.base q
  | Fifo q => FifoQueue.base q
  end.

Definition receive (clk : nat -> Z) (num_messages : Z) (visibility_timeout : option Z)
    (queue : Queue) : ReceiveMessageResult * Queue :=
  match queue with
  | Standard q =>
      let '(result, q) := StandardQueue.receive clk num_messages visibility_timeout q in
      (result, Standard q)
  | Fifo q =>
      let '(result, q) := FifoQueue.receive clk num_messages visibility_timeout q in
      (result, Fifo q)
  end.

Definition put (clk : nat -> Z) (sequence_number : Z) (message : Message)
    (message_group_id message_deduplication_id : option string)
    (queue : Queue) : Result SqsMessage.t * Queue :=
  match queue with
  | Standard q =>
      let '(result, q) :=
        StandardQueue.put clk message None message_deduplication_id message_group_id None q in
      (result, Standard q)
  | Fifo q =>
      let '(result, q) :=
        FifoQueue.put sha256_hexdigest clk sequence_number message None
          message_deduplication_id message_group_id None q in
      (result, Fifo q)
  end.

Definition remove (now : Z) (receipt_handle : ReceiptHandle)
    (queue : Queue) : Result unit * Queue :=
  match queue with
  | Standard q =>
      let '(result, q) := StandardQueue.remove receipt_handle q in
      (result, Standard q)
  | Fifo q =>
      let '(result, q) := FifoQueue.remove now receipt_handle q in
      (result, Fifo q)
  end.

(** [SqsProvider._require_queue] of the parsed arn *)
Definition _get_queue_by_arn (queue_arn : string) (queues : Queues) : Result Queue :=
  match queues !! queue_arn with
  | Some queue => Ok queue
  | None => Raise QueueDoesNotExist
  end.

Definition _fail_task (task : MessageMoveTask.t) (reason : Exception) : MessageMoveTask.t :=
  let task := MessageMoveTask.with_status FAILED task in
  match exc_code reason with
  | Some code => MessageMoveTask.with_failure_reason (Some code) task
  | None => MessageMoveTask.with_failure_reason (Some (exc_class reason)) task
  end.

(** The body of [while not move_task.cancel_event.is_set()], round
    [i].  [clk c] gives the readings of the clock during the call
    number [c] of a queue method (three calls per round) and
    [sequence i] the number that a FIFO target draws in round [i].
    The [Message] dictionary of the moved message is passed to the
    target by value. *)
Fixpoint _run_loop (fuel : nat) (clk : nat -> nat -> Z) (sequence : nat -> Z) (i : nat)
    (queues : Queues) (move_task : MessageMoveTask.t)
    : LoopExit * Queues * MessageMoveTask.t :=
  match fuel with
  | O => (OutOfFuel, queues, move_task)
  | S fuel' =>
      if MessageMoveTask.cancel_event move_task then (Finished, queues, move_task)
      else
        match _get_queue_by_arn (MessageMoveTask.source_arn move_task) queues with
        | Raise e => (Raised e, queues, move_task)
        | Ok source_queue =>
            let '(receive_result, source_queue) :=
              receive (clk (3 * i)) 1 (Some 1%Z) source_queue in
            let queues := <[MessageMoveTask.source_arn move_task := source_queue]> queues in
            match dead_letter_messages receive_result with
            | _ :: _ => (Raised NotImplementedError, queues, move_task)
            | [] =>
                match successful receive_result with
                | [] => (Finished, queues, move_task)
                | message :: _ =>
                    match receipt_handles receive_result with
                    | [] => (Raised (mkException "IndexError" None), queues, move_task)
                    | receipt_handle :: _ =>
                        let message := SqsQueue.obj (queue_base source_queue) message in
                        let target_arn :=
                          if truthy_str (MessageMoveTask.destination_arn move_task)
                          then MessageMoveTask.destination_arn move_task
                          else SqsMessage.dead_letter_queue_source_arn message in
                        match target_arn with
                        | None =>
                            (* the arn is [None]: it cannot be parsed *)
                            (Raised (mkException "AttributeError" None), queues, move_task)
                        | Some target_arn =>
                            match _get_queue_by_arn target_arn queues with
                            | Raise e => (Raised e, queues, move_task)
                            | Ok target_queue =>
                                let '(put_result, target_queue) :=
                                  put (clk (3 * i + 1)) (sequence i)
                                    (SqsMessage.message message)
                                    (SqsMessage.message_group_id message)
                                    (SqsMessage.message_deduplication_id message)
                                    target_queue in
                                let queues := <[target_arn := target_queue]> queues in
                                match put_result with
                                | Raise e => (Raised e, queues, move_task)
                                | Ok _ =>
                                    (* [source_queue] is the object of the store *)
                                    let source_queue :=
                                      default source_queue
                                        (queues !! MessageMoveTask.source_arn move_task) in
                                    let '(remove_result, source_queue) :=
                                      remove (clk (3 * i + 2) 0) receipt_handle source_queue in
                                    let queues :=
                                      <[MessageMoveTask.source_arn move_task := source_queue]>
                                        queues in
                                    match remove_result with
                                    | Raise e => (Raised e, queues, move_task)
                                    | Ok _ =>
                                        let move_task :=
                                          MessageMoveTask.with_approximate_number_of_messages_moved
                                            (MessageMoveTask.approximate_number_of_messages_moved
                                               move_task + 1)%Z move_task in
                                        _run_loop fuel' clk sequence (S i) queues move_task
                                    end
                                end
                            end
                        end
                    end
                end
            end
        end
  end.

(** [try: ... except Exception as e: self._fail_task(move_task, e)
    else: ...]; a loop that is still running when the fuel ends leaves
    the status as it is *)
Definition _run (fuel : nat) (clk : nat -> nat -> Z) (sequence : nat -> Z)
    (queues : Queues) (move_task : MessageMoveTask.t) : Queues * MessageMoveTask.t :=
  match _run_loop fuel clk sequence 0 queues move_task with
  | (Raised e, queues, move_task) => (queues, _fail_task move_task e)
  | (Finished, queues, move_task) =>
      if MessageMoveTask.cancel_event move_task
      then (queues, MessageMoveTask.with_status CANCELLED move_task)
      else (queues, MessageMoveTask.with_status COMPLETED move_task)
  | (OutOfFuel, queues, move_task) => (queues, move_task)
  end.
End manager.
End MessageMoveTaskManager.

(** * Properties *)

(** ** The heap operations keep the heap invariant *)

Ltac dlia := zify; Z.to_euclidean_division_equations; lia.

Module heapq_facts.
Import heapq.

Section heap_proofs.
Context {A : Type} (key : A -> Z) (lt : A -> A -> bool).
Hypothesis lt_key : forall a b, lt a b = (key a <? key b)%Z.

Lemma anc_le s p : anc s p -> s <= p.
Proof. induction 1; unfold child in *; lia. Qed.

Lemma anc_parent s p : anc s p -> s < p -> anc s ((p - 1) / 2).
Proof.
intros Ha Hlt. destruct Ha as [|q j Hq Hc]; [lia|].
replace ((j - 1) / 2) with q; [done|]. unfold child in Hc. dlia.
Qed.

Lemma child_parent i j : child i j -> i = (j - 1) / 2.
Proof. unfold child. dlia. Qed.

Lemma parent_child p : 0 < p -> child ((p - 1) / 2) p.
Proof. unfold child. dlia. Qed.

(** ** _siftdown *)

Lemma siftdown_loop_length fuel h s pos v :
length (_siftdown_loop lt fuel h s pos v).1 = length h.
Proof.
revert h pos. induction fuel as [|f IH]; intros h pos; simpl; [done|].
case_bool_decide; [|done].
destruct (h !! _) as [parent|]; [|done].
destruct (lt v parent); [|done].
rewrite IH. apply length_insert.
Qed.

Lemma siftdown_loop_pos fuel h s pos v :
(_siftdown_loop lt fuel h s pos v).2 <= pos.
Proof.
revert h pos. induction fuel as [|f IH]; intros h pos; simpl; [done|].
case_bool_decide; [|done].
destruct (h !! _) as [parent|]; [|done].
destruct (lt v parent); [|done].
etrans; [apply IH|]. dlia.
Qed.

Lemma siftdown_loop_perm fuel h s pos v :
pos < length h ->
<[(_siftdown_loop lt fuel h s pos v).2 := v]> (_siftdown_loop lt fuel h s pos v).1
  ≡ₚ <[pos := v]> h.
Proof.
revert h pos. induction fuel as [|f IH]; intros h pos Hpos; simpl; [done|].
case_bool_decide as Hs; [|done].
destruct (h !! _) as [parent|] eqn:Hp; [|done].
destruct (lt v parent); [|done].
assert (Hpp : (pos - 1) / 2 < pos) by dlia.
rewrite IH by (rewrite length_insert; lia).
destruct (lookup_lt_is_Some_2 h pos Hpos) as [x Hx].
(* both sides are h with v stored at pos and the displaced item moved *)
etrans; [|apply (Permutation_insert_swap (<[pos:=v]> h) ((pos - 1) / 2) pos parent v)].
- rewrite (list_insert_insert_ne _ ((pos - 1) / 2) pos v v) by lia.
  rewrite list_insert_insert_eq.
  by rewrite list_insert_insert_ne by lia.
- by rewrite list_lookup_insert_ne by lia.
- by apply list_lookup_insert_eq.
Qed.

Ltac lk :=
repeat match goal with
| H : <[?i := _]> ?l !! ?j = Some _ |- _ =>
    first [ rewrite list_lookup_insert_ne in H by lia
          | rewrite list_lookup_insert_eq in H by (rewrite ?length_insert; lia) ]
end.

Lemma sd_inv_done s g pos :
sd_inv key s g pos -> pos = s \/ ordered_at key g ((pos - 1) / 2) pos -> heap_from key s g.
Proof.
intros (Ha & Hp & _) Hd i j Hc Hs.
destruct (decide (j = pos)) as [->|Hne]; [|by apply Hp].
destruct Hd as [->|Hd]; [unfold child in Hc; lia|].
by rewrite (child_parent _ _ Hc).
Qed.

Lemma sd_inv_step s g pos v parent :
sd_inv key s g pos -> s < pos -> pos < length g ->
g !! ((pos - 1) / 2) = Some parent -> g !! pos = Some v ->
(key v < key parent)%Z ->
sd_inv key s (<[(pos - 1) / 2 := v]> (<[pos := parent]> g)) ((pos - 1) / 2).
Proof.
intros (Ha & Hp & Hg) Hs Hlen Hpar Hv Hlt.
set (pp := (pos - 1) / 2) in *.
assert (Hpp : pp < pos) by (subst pp; dlia).
assert (Hcp : child pp pos) by (apply parent_child; lia).
assert (Hspp : s <= pp) by (apply anc_le, anc_parent; [done|lia]).
split; [by apply anc_parent|]. split.
- intros i j Hc Hsi Hj x y Hx Hy.
  destruct (decide (i = pp)) as [->|Hipp].
  + rewrite list_lookup_insert_eq in Hx by (rewrite length_insert; lia).
    injection Hx as <-.
    destruct (decide (j = pos)) as [->|Hjpos].
    * lk. injection Hy as <-. lia.
    * lk. specialize (Hp pp j Hc Hsi Hjpos _ _ Hpar Hy). lia.
  + destruct (decide (i = pos)) as [->|Hipos].
    * assert (j <> pp /\ j <> pos) as [??] by (unfold child in Hc; lia).
      lk. injection Hx as <-. by apply (Hg pp j Hcp Hc Hspp).
    * assert (j <> pos) by (intros ->; apply Hipp; rewrite (child_parent _ _ Hc); done).
      lk. by apply (Hp i j Hc Hsi).
- intros gp j Hc1 Hc2 Hsg x y Hx Hy.
  assert (gp <> pp /\ gp <> pos /\ j <> pp) as (?&?&?) by (unfold child in *; lia).
  lk. assert (Hxp : (key x <= key parent)%Z) by (apply (Hp gp pp Hc1 Hsg); [lia|done..]).
  destruct (decide (j = pos)) as [->|Hjpos].
  + lk. injection Hy as <-. done.
  + lk. specialize (Hp pp j Hc2 Hspp Hjpos _ _ Hpar Hy). lia.
Qed.

Lemma siftdown_loop_heap fuel h s pos v :
pos < length h -> pos <= fuel ->
sd_inv key s (<[pos := v]> h) pos ->
heap_from key s (<[(_siftdown_loop lt fuel h s pos v).2 := v]>
               (_siftdown_loop lt fuel h s pos v).1).
Proof.
revert h pos. induction fuel as [|f IH]; intros h pos Hlen Hfuel Hinv; simpl.
{ apply (sd_inv_done _ _ _ Hinv). left. pose proof (anc_le _ _ (proj1 Hinv)). lia. }
case_bool_decide as Hs.
2:{ apply (sd_inv_done _ _ _ Hinv). left. pose proof (anc_le _ _ (proj1 Hinv)). lia. }
assert (Hpp : (pos - 1) / 2 < pos) by dlia.
destruct (h !! _) as [parent|] eqn:Hp.
2:{ apply lookup_ge_None in Hp. lia. }
destruct (lt v parent) eqn:Hlt; rewrite lt_key in Hlt.
- apply IH; [rewrite length_insert; lia|lia|].
  replace (<[pos:=parent]> h) with (<[pos:=parent]> (<[pos:=v]> h))
    by apply list_insert_insert_eq.
  apply sd_inv_step; [done|done|by rewrite length_insert| | |lia].
  + by rewrite list_lookup_insert_ne by lia.
  + by apply list_lookup_insert_eq.
- apply (sd_inv_done _ _ _ Hinv). right. intros x y Hx Hy.
  rewrite list_lookup_insert_ne in Hx by lia.
  rewrite list_lookup_insert_eq in Hy by lia.
  simplify_eq. lia.
Qed.

Lemma siftdown_length h s pos : length (_siftdown lt h s pos) = length h.
Proof.
unfold _siftdown. destruct (h !! pos) as [v|]; [|done].
destruct (_siftdown_loop _ _ _ _ _ _) as [h' p'] eqn:E.
rewrite length_insert. by rewrite <- (siftdown_loop_length pos h s pos v), E.
Qed.

Lemma siftdown_perm h s pos : _siftdown lt h s pos ≡ₚ h.
Proof.
unfold _siftdown. destruct (h !! pos) as [v|] eqn:Hv; [|done].
pose proof (siftdown_loop_perm pos h s pos v (lookup_lt_Some _ _ _ Hv)) as Hperm.
destruct (_siftdown_loop _ _ _ _ _ _) as [h' p']. simpl in Hperm.
by rewrite Hperm, list_insert_id.
Qed.

Lemma siftdown_heap h s pos :
sd_inv key s h pos -> heap_from key s (_siftdown lt h s pos).
Proof.
intros Hinv. unfold _siftdown. destruct (h !! pos) as [v|] eqn:Hv.
- pose proof (siftdown_loop_heap pos h s pos v (lookup_lt_Some _ _ _ Hv) (le_n _)) as Hh.
  destruct (_siftdown_loop _ _ _ _ _ _) as [h' p']. simpl in Hh.
  apply Hh. by rewrite list_insert_id.
- (* pos out of range: nothing sits below the last parent *)
  apply (sd_inv_done _ _ _ Hinv). right. intros x y _ Hy. congruence.
Qed.

(** ** _siftup *)

Lemma su_inv_step s h pos cp c :
su_inv key s h pos -> pos < length h -> child pos cp -> h !! cp = Some c ->
(forall j y, child pos j -> h !! j = Some y -> (key c <= key y)%Z) ->
su_inv key s (<[pos := c]> h) cp.
Proof.
intros (Ha & Hp & Hg) Hlen Hc Hcp Hmin.
pose proof (anc_le _ _ Ha) as Hs.
split; [by eapply anc_child|]. split.
- intros i j Hij Hsi Hi Hj x y Hx Hy.
  destruct (decide (i = pos)) as [->|Hipos].
  + assert (j <> pos) by (unfold child in Hij; lia).
    lk. injection Hx as <-. by apply (Hmin j).
  + destruct (decide (j = pos)) as [->|Hjpos].
    * lk. injection Hy as <-. by apply (Hg i cp Hij Hc Hsi).
    * lk. by apply (Hp i j Hij Hsi).
- intros gp j Hc1 Hc2 Hsg x y Hx Hy.
  assert (gp = pos) as -> by (rewrite (child_parent _ _ Hc1), (child_parent _ _ Hc); done).
  assert (j <> pos /\ cp <> pos) as [??] by (unfold child in *; lia).
  lk. injection Hx as <-. apply (Hp cp j Hc2); [unfold child in Hc; lia|done..].
Qed.

Lemma siftup_loop_length fuel h endpos pos :
length (_siftup_loop lt fuel h endpos pos).1 = length h.
Proof.
revert h pos. induction fuel as [|f IH]; intros h pos; simpl; [done|].
case_bool_decide; [|done].
destruct (h !! _) as [c|]; [|done].
rewrite IH. apply length_insert.
Qed.

Lemma siftup_loop_perm fuel h endpos pos v :
pos < length h ->
<[(_siftup_loop lt fuel h endpos pos).2 := v]> (_siftup_loop lt fuel h endpos pos).1
  ≡ₚ <[pos := v]> h.
Proof.
revert h pos. induction fuel as [|f IH]; intros h pos Hpos; simpl; [done|].
case_bool_decide as Hs; [|done].
set (cp := match h !! (2 * pos + 1) with
           | Some l => match h !! (2 * pos + 1 + 1) with
                       | Some r => if negb (lt l r) then 2 * pos + 1 + 1 else 2 * pos + 1
                       | None => 2 * pos + 1 end
           | None => 2 * pos + 1 end).
assert (Hcp : pos < cp).
{ subst cp. destruct (h !! (2 * pos + 1)); [|lia].
  destruct (h !! (2 * pos + 1 + 1)); [|lia]. destruct (negb _); lia. }
destruct (h !! cp) as [c|] eqn:Hc; [|done].
rewrite IH by (rewrite length_insert; by eapply lookup_lt_Some).
etrans; [|apply (Permutation_insert_swap (<[pos:=v]> h) cp pos c v)].
- rewrite (list_insert_insert_ne _ cp pos v v) by lia.
  rewrite list_insert_insert_eq.
  by rewrite list_insert_insert_ne by lia.
- by rewrite list_lookup_insert_ne by lia.
- by apply list_lookup_insert_eq.
Qed.

Lemma siftup_loop_inv fuel h s pos :
pos < length h -> length h <= fuel + pos -> su_inv key s h pos ->
su_inv key s (_siftup_loop lt fuel h (length h) pos).1
         (_siftup_loop lt fuel h (length h) pos).2 /\
(_siftup_loop lt fuel h (length h) pos).2 < length h /\
length h <= 2 * (_siftup_loop lt fuel h (length h) pos).2 + 1.
Proof.
revert h pos. induction fuel as [|f IH]; intros h pos Hpos Hfuel Hinv; simpl.
{ repeat split; [apply Hinv..|lia|lia]. }
case_bool_decide as Hs; [|repeat split; simpl; [apply Hinv..|lia|lia]].
destruct (lookup_lt_is_Some_2 h (2 * pos + 1) Hs) as [l Hl]. rewrite Hl.
assert (exists cp c, h !! cp = Some c /\ child pos cp /\
          (forall j y, child pos j -> h !! j = Some y -> (key c <= key y)%Z) /\
          match h !! (2 * pos + 1 + 1) with
          | Some r => if negb (lt l r) then 2 * pos + 1 + 1 else 2 * pos + 1
          | None => 2 * pos + 1 end = cp) as (cp & c & Hc & Hchild & Hmin & ->).
{ destruct (h !! (2 * pos + 1 + 1)) as [r|] eqn:Hr.
  - destruct (lt l r) eqn:Hlt; rewrite lt_key in Hlt; simpl.
    + exists (2 * pos + 1), l. split_and!; [done|left; lia| |done].
      intros j y [->| ->] Hy; [|replace (2 * pos + 2) with (2 * pos + 1 + 1) in Hy by lia];
        simplify_eq; lia.
    + exists (2 * pos + 1 + 1), r. split_and!; [done|right; lia| |done].
      intros j y [->| ->] Hy; [|replace (2 * pos + 2) with (2 * pos + 1 + 1) in Hy by lia];
        simplify_eq; lia.
  - exists (2 * pos + 1), l. split_and!; [done|left; lia| |done].
    intros j y [->| ->] Hy; [|replace (2 * pos + 2) with (2 * pos + 1 + 1) in Hy by lia];
      simplify_eq; lia. }
rewrite Hc.
assert (Hcplt : cp < length h) by (by eapply lookup_lt_Some).
rewrite <- (length_insert h pos c) at 1 2 4.
destruct (IH (<[pos:=c]> h) cp) as (H1 & H2 & H3).
- by rewrite length_insert.
- rewrite length_insert. unfold child in Hchild. lia.
- by eapply su_inv_step.
- rewrite length_insert in *. done.
Qed.

Lemma siftup_length h pos : length (_siftup lt h pos) = length h.
Proof.
unfold _siftup. destruct (h !! pos) as [v|]; [|done].
destruct (_siftup_loop _ _ _ _ _) as [h' p'] eqn:E.
rewrite siftdown_length, length_insert.
by rewrite <- (siftup_loop_length (length h) h (length h) pos), E.
Qed.

Lemma siftup_perm h pos : _siftup lt h pos ≡ₚ h.
Proof.
unfold _siftup. destruct (h !! pos) as [v|] eqn:Hv; [|done].
pose proof (siftup_loop_perm (length h) h (length h) pos v (lookup_lt_Some _ _ _ Hv)) as Hperm.
destruct (_siftup_loop _ _ _ _ _) as [h' p']. simpl in Hperm.
by rewrite siftdown_perm, Hperm, list_insert_id.
Qed.

Lemma siftup_heap h pos : su_inv key pos h pos -> heap_from key pos (_siftup lt h pos).
Proof.
intros Hinv. unfold _siftup. destruct (h !! pos) as [v|] eqn:Hv.
2:{ (* pos out of range: pos has no children in the list *)
    intros i j Hc Hs x y Hx Hy. apply lookup_ge_None in Hv.
    apply lookup_lt_Some in Hx. lia. }
apply lookup_lt_Some in Hv as Hlen.
destruct (siftup_loop_inv (length h) h pos pos Hlen ltac:(lia) Hinv) as ((Ha & Hp & Hg) & Hlt & Hleaf).
pose proof (siftup_loop_length (length h) h (length h) pos) as Hl.
destruct (_siftup_loop _ _ _ _ _) as [h' p']. simpl in *.
apply siftdown_heap. split; [done|]. split.
- intros i j Hc Hs Hj x y Hx Hy.
  destruct (decide (i = p')) as [->|Hi].
  + apply lookup_lt_Some in Hy. rewrite length_insert in Hy.
    unfold child in Hc. lia.
  + lk. by apply (Hp i j Hc Hs).
- intros gp j _ Hc _ x y _ Hy.
  apply lookup_lt_Some in Hy. rewrite length_insert in Hy.
  unfold child in Hc. lia.
Qed.

(** ** heappush *)

Lemma heappush_length h x : length (heappush lt h x) = S (length h).
Proof. unfold heappush. rewrite siftdown_length, length_app. simpl. lia. Qed.

Lemma heappush_perm h x : heappush lt h x ≡ₚ x :: h.
Proof.
unfold heappush. rewrite siftdown_perm. by rewrite Permutation_app_comm.
Qed.

Lemma heappush_heap h x : is_heap key h -> is_heap key (heappush lt h x).
Proof.
intros Hh. apply siftdown_heap. split; [|split].
- (* every index descends from the root *)
  induction (length h) as [n IH] using lt_wf_ind.
  destruct n as [|n]; [constructor|].
  apply (anc_child 0 ((S n - 1) / 2)); [apply IH; dlia|apply parent_child; lia].
- intros i j Hc _ Hj a b Ha Hb.
  assert (j < length h).
  { apply lookup_lt_Some in Hb. rewrite length_app in Hb. simpl in Hb. lia. }
  rewrite lookup_app_l in Ha by (unfold child in Hc; lia).
  rewrite lookup_app_l in Hb by lia.
  by apply (Hh i j Hc ltac:(lia)).
- intros gp j _ Hc _ a b _ Hb.
  apply lookup_lt_Some in Hb. rewrite length_app in Hb. simpl in Hb.
  unfold child in Hc. lia.
Qed.

(** ** heappop *)

Lemma heappop_None h : heappop lt h = None <-> h = [].
Proof.
unfold heappop. split; [|by intros ->].
destruct (last h) eqn:E; [|by rewrite last_None in E].
by destruct (removelast h).
Qed.

Lemma heappop_Some h x h' :
heappop lt h = Some (x, h') ->
h !! 0 = Some x /\ h ≡ₚ x :: h' /\ length h = S (length h').
Proof.
unfold heappop. destruct (last h) as [lastelt|] eqn:E; [|done].
apply last_Some in E as [front ->]. rewrite removelast_last.
destruct front as [|returnitem rest]; intros [= <- <-]; [done|].
split; [done|]. split.
- rewrite siftup_perm. simpl. constructor. by rewrite Permutation_app_comm.
- rewrite siftup_length. simpl. rewrite length_app. simpl. lia.
Qed.

Lemma heappop_heap h x h' :
is_heap key h -> heappop lt h = Some (x, h') -> is_heap key h'.
Proof.
unfold heappop. intros Hh. destruct (last h) as [lastelt|] eqn:E; [|done].
apply last_Some in E as [front ->]. rewrite removelast_last.
destruct front as [|returnitem rest]; intros [= <- <-].
{ intros i j _ _ a b Ha. by destruct i. }
apply siftup_heap. split; [constructor|]. split.
- intros i j Hc _ Hi Hj a b Ha Hb.
  destruct i as [|i]; [done|]. destruct j as [|j]; [done|]. simpl in Ha, Hb.
  apply (Hh (S i) (S j) Hc ltac:(lia)); simpl.
  + rewrite lookup_app_l; [done|by eapply lookup_lt_Some].
  + rewrite lookup_app_l; [done|by eapply lookup_lt_Some].
- intros gp j Hc. unfold child in Hc. lia.
Qed.

(** The root of a heap is a smallest element. *)
Lemma heap_root_min h x y :
is_heap key h -> h !! 0 = Some x -> y ∈ h -> (key x <= key y)%Z.
Proof.
intros Hh Hx Hy. apply list_elem_of_lookup in Hy as [j Hj].
revert y Hj. induction j as [j IH] using lt_wf_ind. intros y Hj.
destruct j as [|j]; [simplify_eq; lia|].
destruct (lookup_lt_is_Some_2 h ((S j - 1) / 2)) as [p Hp].
{ apply lookup_lt_Some in Hj. dlia. }
specialize (IH ((S j - 1) / 2) ltac:(dlia) _ Hp).
pose proof (Hh _ _ (parent_child (S j) ltac:(lia)) ltac:(lia) _ _ Hp Hj). lia.
Qed.

(** ** heapify *)

Lemma heapify_length h : length (heapify lt h) = length h.
Proof.
unfold heapify. generalize (reverse (seq 0 (length h / 2))) as idxs.
intros idxs. revert h. induction idxs as [|i idxs IH]; intros h; simpl; [done|].
by rewrite IH, siftup_length.
Qed.

Lemma heapify_perm h : heapify lt h ≡ₚ h.
Proof.
unfold heapify. generalize (reverse (seq 0 (length h / 2))) as idxs.
intros idxs. revert h. induction idxs as [|i idxs IH]; intros h; simpl; [done|].
by rewrite IH, siftup_perm.
Qed.

Lemma heapify_heap h : is_heap key (heapify lt h).
Proof.
unfold heapify.
assert (Hfrom : heap_from key (length h / 2) h).
{ intros i j Hc Hs a b _ Hb. apply lookup_lt_Some in Hb. unfold child in Hc. dlia. }
revert Hfrom. generalize (length h / 2) as n. intros n. revert h.
induction n as [|n IH]; intros h Hfrom; [done|].
rewrite seq_S, reverse_app. simpl. apply IH, siftup_heap.
split; [constructor|]. split.
- intros i j Hc Hs Hi _. apply Hfrom; [done|lia].
- intros gp j Hc. unfold child in Hc. lia.
Qed.

(** The boolean test decides the invariant. *)
Lemma is_heapb_spec h : is_heapb key h = true <-> is_heap key h.
Proof.
unfold is_heapb. rewrite forallb_forall. split.
- intros Hb i j Hc _ x y Hx Hy.
  assert (Hj : j < length h) by (by eapply lookup_lt_Some).
  specialize (Hb j). rewrite <- (child_parent _ _ Hc), Hx, Hy in Hb.
  apply Z.leb_le, Hb, in_seq. unfold child in Hc. lia.
- intros Hh j Hj%in_seq.
  destruct (h !! ((j - 1) / 2)) as [p|] eqn:Hp; [|done].
  destruct (h !! j) as [c|] eqn:Hc; [|done].
  apply Z.leb_le. apply (Hh _ _ (parent_child j ltac:(lia)) ltac:(lia) _ _ Hp Hc).
Qed.
End heap_proofs.
End heapq_facts.

(** ** FIFO queues: the bookkeeping of the ready groups *)

Lemma messages_get_message_group (g g' : GroupId) (q : FifoQueue.t) :
  FifoQueue.messages (FifoQueue.get_message_group g q) g' = FifoQueue.messages q g'.
Proof.
  unfold FifoQueue.get_message_group, FifoQueue.messages.
  destruct (FifoQueue.message_groups q !! g) eqn:E; [done|]. simpl.
  destruct (decide (g = g')) as [<-|Hne].
  - by rewrite lookup_insert_eq, E.
  - by rewrite lookup_insert_ne.
Qed.

(** [_put_message] in closed form: the heap of the group of the message
    gets the message; the group leaves [inflight_groups] when it is in
    flight and the message was received before; it joins
    [message_group_queue] then, and also when it is not in flight and
    was empty. *)
Lemma put_message_eq (message : ref) (q : FifoQueue.t) :
  FifoQueue._put_message message q =
  let m := SqsQueue.obj (FifoQueue.base q) message in
  let group := SqsMessage.message_group_id m in
  let inflight := bool_decide (group ∈ FifoQueue.inflight_groups q) in
  let fresh := bool_decide (SqsMessage.receive_count m < 1) in
  let previously_empty := bool_decide (FifoQueue.messages q group = []) in
  FifoQueue.mk (FifoQueue.base q) (FifoQueue.deduplication q)
    (<[group := heapq.heappush (SqsQueue.lt (FifoQueue.base q))
                  (FifoQueue.messages q group) message]> (FifoQueue.message_groups q))
    (if inflight && negb fresh then FifoQueue.inflight_groups q ∖ {[group]}
     else FifoQueue.inflight_groups q)
    (if inflight && negb fresh || negb inflight && previously_empty
     then FifoQueue.message_group_queue q ++ [group]
     else FifoQueue.message_group_queue q)
    (FifoQueue.deduplication_scope q).
Proof.
  destruct q as [b dd groups infl queue scope].
  unfold FifoQueue._put_message, FifoQueue.get_message_group, FifoQueue.messages.
  simpl.
  set (group := SqsMessage.message_group_id (SqsQueue.obj b message)).
  destruct (groups !! group) as [heap|] eqn:Hg; simpl.
  - rewrite Hg. simpl.
    destruct (bool_decide (SqsMessage.receive_count (SqsQueue.obj b message) < 1));
      destruct (bool_decide (group ∈ infl));
      destruct (bool_decide (heap = [])); reflexivity.
  - rewrite lookup_insert_eq. simpl. rewrite insert_insert_eq.
    destruct (bool_decide (SqsMessage.receive_count (SqsQueue.obj b message) < 1));
      destruct (bool_decide (group ∈ infl)); reflexivity.
Qed.

Lemma put_message_base (message : ref) (q : FifoQueue.t) :
  FifoQueue.base (FifoQueue._put_message message q) = FifoQueue.base q.
Proof. by rewrite put_message_eq. Qed.

Lemma put_message_deduplication (message : ref) (q : FifoQueue.t) :
  FifoQueue.deduplication (FifoQueue._put_message message q) = FifoQueue.deduplication q.
Proof. by rewrite put_message_eq. Qed.

Lemma put_message_messages (message : ref) (q : FifoQueue.t) (g : GroupId) :
  FifoQueue.messages (FifoQueue._put_message message q) g =
  if decide (SqsMessage.message_group_id (SqsQueue.obj (FifoQueue.base q) message) = g)
  then heapq.heappush (SqsQueue.lt (FifoQueue.base q)) (FifoQueue.messages q g) message
  else FifoQueue.messages q g.
Proof.
  rewrite put_message_eq. unfold FifoQueue.messages at 1. simpl.
  rewrite lookup_insert. by case_decide; subst.
Qed.

(** C1. [FifoQueue._put_message] pushes the message into the heap of its
    message group.  A message that was never received ([receive_count] 0)
    never makes a group ready that is in [inflight_groups]: the group
    queue and [inflight_groups] stay as they are.  Apart from that case,
    when the group was empty before the push, or is in [inflight_groups]
    and the message has [receive_count >= 1], the group is appended to
    [message_group_queue] and is not in [inflight_groups] afterwards.  In
    the one case left (a group that holds messages and is not in flight)
    nothing but the heap changes. *)
Theorem fifo_put_message_group_bookkeeping (message : ref) (q : FifoQueue.t) :
  let m := SqsQueue.obj (FifoQueue.base q) message in
  let group := SqsMessage.message_group_id m in
  let q' := FifoQueue._put_message message q in
  FifoQueue.messages q' group
    = heapq.heappush (SqsQueue.lt (FifoQueue.base q)) (FifoQueue.messages q group) message
  /\ (SqsMessage.receive_count m = 0 -> group ∈ FifoQueue.inflight_groups q ->
      FifoQueue.message_group_queue q' = FifoQueue.message_group_queue q
      /\ FifoQueue.inflight_groups q' = FifoQueue.inflight_groups q)
  /\ (~ (SqsMessage.receive_count m = 0 /\ group ∈ FifoQueue.inflight_groups q) ->
      FifoQueue.messages q group = []
      \/ (group ∈ FifoQueue.inflight_groups q /\ 1 <= SqsMessage.receive_count m) ->
      FifoQueue.message_group_queue q' = FifoQueue.message_group_queue q ++ [group]
      /\ FifoQueue.inflight_groups q' = FifoQueue.inflight_groups q ∖ {[group]}
      /\ group ∉ FifoQueue.inflight_groups q')
  /\ (FifoQueue.messages q group <> [] -> group ∉ FifoQueue.inflight_groups q ->
      FifoQueue.message_group_queue q' = FifoQueue.message_group_queue q
      /\ FifoQueue.inflight_groups q' = FifoQueue.inflight_groups q).
Proof.
  intros m group q'. subst q' group m. split.
  { rewrite put_message_messages. by rewrite decide_True. }
  rewrite put_message_eq. simpl.
  generalize (SqsMessage.receive_count (SqsQueue.obj (FifoQueue.base q) message)) as rc.
  generalize (SqsMessage.message_group_id (SqsQueue.obj (FifoQueue.base q) message)) as group.
  intros group rc.
  repeat case_bool_decide; simpl; split_and!; intros; try done; try lia;
    try (split_and!; [done | set_solver | set_solver]).
  all: exfalso; naive_solver lia.
Qed.

(** The three cases on concrete queues: a new message for a group that is
    in flight and empty leaves the group where it is; a message that
    comes back makes the group ready; a new message for a new group makes
    the group ready. *)
Example fifo_put_message_cases :
  let attributes := mkQueueAttributes 30 0 345600 None false "queue" in
  let new_message :=
    SqsMessage.__init__ 10 10 (mkMessage "id1" "body" None None None None None)
      (Some "d1") (Some "g") (Some 1%Z) in
  let seen_message := SqsMessage.with_receive_count 1 new_message in
  let q (m : SqsMessage.t) (flying : gset GroupId) :=
    FifoQueue.mk (SqsQueue.mk "arn" attributes {[0 := m]} ∅ ∅ ∅) ∅ {[Some "g" := []]}
      flying [] "queue" in
  FifoQueue.message_group_queue (FifoQueue._put_message 0 (q new_message {[Some "g"]})) = []
  /\ FifoQueue.inflight_groups (FifoQueue._put_message 0 (q new_message {[Some "g"]}))
     = {[Some "g"]}
  /\ FifoQueue.message_group_queue (FifoQueue._put_message 0 (q seen_message {[Some "g"]}))
     = [Some "g"]
  /\ FifoQueue.inflight_groups (FifoQueue._put_message 0 (q seen_message {[Some "g"]})) = ∅
  /\ FifoQueue.message_group_queue (FifoQueue._put_message 0 (q new_message ∅)) = [Some "g"].
Proof. vm_compute. repeat split. Qed.
